(** * Breakout-Regression notebook: the derived arrays and [outlier_score]

    A shallow embedding of the code cells of [Breakout-Regression.ipynb]:

    - [mags = np.vstack([data['modelMag_%s' % f] for f in 'ugriz']).T]
    - [z = data['z']]
    - [colors = mags[:, 1:] - mags[:, :-1]]
    - [def outlier_score(model, X, y, thresh=0.05)]

    The notebook is read as Python 3 ([/] is true division) running numpy
    with its default floating-point error state, which the notebook never
    changes: an exceptional floating-point condition yields an infinity or a
    NaN together with a warning, and never raises.

    numpy's [float64] is modelled by its values: a finite number (an exact
    rational), the two infinities, or NaN.  Every arithmetic operation that
    rounds in binary64 ([-], [/], the literal [0.05]) goes through one
    rounding operator [rnd], which is a parameter of the development; the
    theorems say which properties of rounding they rely on.  Overflow of a
    finite result and the sign of zero are not modelled. *)

From Stdlib Require Import QArith Qabs Qround Lia Ascii String.
From stdpp Require Import base list strings.

Local Open Scope Z_scope.

(** ** float64 values *)

Inductive float64 : Type :=
  | Fin (q : Q)
  | PosInf
  | NegInf
  | NaN.

(** ** Python exceptions and fallible computations *)

(** [ValueError] is what numpy raises here; [LibraryError] stands for
    whatever an estimator of the external library raises. *)
Inductive pyexn : Type :=
  | ValueError
  | LibraryError (name : string).

Inductive result (A : Type) : Type :=
  | Ok (a : A)
  | Raise (e : pyexn).
Arguments Ok {A} a.
Arguments Raise {A} e.

Global Instance result_ret : MRet result := fun _ a => Ok a.
Global Instance result_bind : MBind result := fun _ _ f m =>
  match m with
  | Ok a => f a
  | Raise e => Raise e
  end.

(** [[f x for x in xs]] where [f] may raise: the first exception surfaces. *)
Fixpoint comprehension {A B} (f : A → result B) (xs : list A) : result (list B) :=
  match xs with
  | [] => Ok []
  | x :: xs' => b ← f x; bs ← comprehension f xs'; Ok (b :: bs)
  end.

(** ** Arrays *)

(** A one-dimensional [ndarray] of float64. *)
Abbreviation ndarray1 := (list float64).

(** A two-dimensional [ndarray]: its shape and its rows. *)
Record ndarray2 : Type := mk_ndarray2 {
  nrows : nat;
  ncols : nat;
  cells : list (list float64)
}.

Definition shape (a : ndarray2) : nat * nat := (nrows a, ncols a).

(** The rows agree with the shape. *)
Definition wf_ndarray2 (a : ndarray2) : Prop :=
  length (cells a) = nrows a ∧ Forall (λ r, length r = ncols a) (cells a).

(** [a[i, j]] for in-range [i], [j]. *)
Definition at2 (a : ndarray2) (i j : nat) : option float64 :=
  r ← cells a !! i; r !! j.

(** A numpy structured array: the field names of its dtype and one record
    (the field values, in dtype order) per row. *)
Record recarray : Type := mk_recarray {
  dtype_names : list string;
  records : list (list float64)
}.

Definition wf_recarray (d : recarray) : Prop :=
  Forall (λ r, length r = length (dtype_names d)) (records d).

(** Position of a field name in the dtype. *)
Fixpoint field_index (name : string) (names : list string) : option nat :=
  match names with
  | [] => None
  | n :: names' =>
      if String.eqb name n then Some 0%nat
      else S <$> field_index name names'
  end.

(** The value of field [name] in one record. *)
Definition field (d : recarray) (name : string) (r : list float64) : option float64 :=
  k ← field_index name (dtype_names d); r !! k.

(** [data[name]]: the column of that field; numpy raises [ValueError] for a
    name the dtype does not have. *)
Definition getfield (d : recarray) (name : string) : result ndarray1 :=
  match field_index name (dtype_names d) with
  | Some k => Ok ((λ r, nth k r NaN) <$> records d)
  | None => Raise ValueError
  end.

(** ** numpy operations *)

Section Numpy.

(** Rounding of an exact result to a binary64 number. *)
Variable rnd : Q → Q.

(** The float literal [q]. *)
Definition float_lit (q : Q) : float64 := Fin (rnd q).

(** IEEE subtraction. *)
Definition f_sub (a b : float64) : float64 :=
  match a, b with
  | NaN, _ | _, NaN => NaN
  | Fin x, Fin y => Fin (rnd (x - y))
  | PosInf, PosInf | NegInf, NegInf => NaN
  | PosInf, _ | _, NegInf => PosInf
  | NegInf, _ | _, PosInf => NegInf
  end.

(** IEEE negation and absolute value (both exact). *)
Definition f_neg (a : float64) : float64 :=
  match a with
  | Fin x => Fin (- x)
  | PosInf => NegInf
  | NegInf => PosInf
  | NaN => NaN
  end.

Definition f_abs (a : float64) : float64 :=
  match a with
  | Fin x => Fin (Qabs x)
  | PosInf | NegInf => PosInf
  | NaN => NaN
  end.

(** IEEE [<=]: false as soon as one side is NaN. *)
Definition f_le (a b : float64) : bool :=
  match a, b with
  | NaN, _ | _, NaN => false
  | Fin x, Fin y => Qle_bool x y
  | NegInf, _ | _, PosInf => true
  | PosInf, _ | _, NegInf => false
  end.

(** IEEE [==]: false as soon as one side is NaN. *)
Definition f_eq (a b : float64) : bool :=
  match a, b with
  | Fin x, Fin y => Qeq_bool x y
  | PosInf, PosInf | NegInf, NegInf => true
  | _, _ => false
  end.

(** Broadcasting of one axis: equal extents, or one of them is 1. *)
Definition broadcast_dim (n m : nat) : option nat :=
  if (n =? m)%nat then Some n
  else if (n =? 1)%nat then Some m
  else if (m =? 1)%nat then Some n
  else None.

(** Stretch an axis of extent 1 to extent [k]. *)
Definition broadcast_to {A} (k : nat) (l : list A) : list A :=
  match l with
  | [x] => replicate k x
  | _ => l
  end.

(** [a - b] on one-dimensional arrays; [ValueError] when the shapes cannot
    be broadcast together. *)
Definition np_subtract (a b : ndarray1) : result ndarray1 :=
  match broadcast_dim (length a) (length b) with
  | Some k => Ok (zip_with f_sub (broadcast_to k a) (broadcast_to k b))
  | None => Raise ValueError
  end.

(** [a - b] on two-dimensional arrays. *)
Definition np_subtract2 (a b : ndarray2) : result ndarray2 :=
  match broadcast_dim (nrows a) (nrows b), broadcast_dim (ncols a) (ncols b) with
  | Some r, Some c =>
      Ok (mk_ndarray2 r c
            (zip_with (zip_with f_sub)
               (broadcast_to r (broadcast_to c <$> cells a))
               (broadcast_to r (broadcast_to c <$> cells b))))
  | _, _ => Raise ValueError
  end.

(** [abs(a)], element-wise. *)
Definition np_abs (a : ndarray1) : ndarray1 := f_abs <$> a.

(** [a <= t] for an array [a] and a scalar [t]: a boolean array. *)
Definition np_less_equal (a : ndarray1) (t : float64) : list bool :=
  (λ d, f_le d t) <$> a.

(** [np.sum] of a boolean array: the number of [True] entries, an integer. *)
Definition np_sum (bs : list bool) : Z :=
  foldr (λ (b : bool) acc, (if b then 1 else 0) + acc) 0 bs.

(** [len(a)]. *)
Definition len {A} (a : list A) : Z := Z.of_nat (length a).

(** [c / n] for a numpy integer scalar [c] (what [np.sum] returns) and a
    Python integer [n].  This is numpy's [true_divide], not the division of
    Python integers: both operands are converted to float64 (exactly, for
    counts and lengths below 2^53) and divided in float64.  A zero divisor
    does not raise [ZeroDivisionError]: numpy warns and returns NaN for
    [0 / 0] and an infinity otherwise. *)
Definition np_true_divide (c n : Z) : float64 :=
  if n =? 0 then
    if c =? 0 then NaN else if 0 <? c then PosInf else NegInf
  else Fin (rnd (inject_Z c / inject_Z n)).

(** [np.vstack] of one-dimensional arrays: one row per array; [ValueError]
    for an empty sequence or for arrays of different lengths. *)
Definition np_vstack (arrs : list ndarray1) : result ndarray2 :=
  match arrs with
  | [] => Raise ValueError
  | a :: rest =>
      if forallb (λ r, (length r =? length a)%nat) rest
      then Ok (mk_ndarray2 (length arrs) (length a) arrs)
      else Raise ValueError
  end.

(** [a.T]. *)
Definition transpose (a : ndarray2) : ndarray2 :=
  mk_ndarray2 (ncols a) (nrows a)
    ((λ j, (λ r, nth j r NaN) <$> cells a) <$> seq 0 (ncols a)).

(** [a[:, 1:]] and [a[:, :-1]]. *)
Definition cols_from_1 (a : ndarray2) : ndarray2 :=
  mk_ndarray2 (nrows a) (ncols a - 1) (drop 1 <$> cells a).

Definition cols_to_last (a : ndarray2) : ndarray2 :=
  mk_ndarray2 (nrows a) (ncols a - 1) ((λ r, take (length r - 1) r) <$> cells a).

(** ** The notebook's cells *)

(** ['modelMag_%s' % f]. *)
Definition modelMag_name (f : ascii) : string :=
  "modelMag_" +:+ String f EmptyString.

(** [mags = np.vstack([data['modelMag_%s' % f] for f in 'ugriz']).T] *)
Definition mags (data : recarray) : result ndarray2 :=
  columns ← comprehension (λ f, getfield data (modelMag_name f))
                          (list_ascii_of_string "ugriz");
  stacked ← np_vstack columns;
  Ok (transpose stacked).

(** [z = data['z']] *)
Definition z (data : recarray) : result ndarray1 := getfield data "z".

(** [colors = mags[:, 1:] - mags[:, :-1]] *)
Definition colors (mags : ndarray2) : result ndarray2 :=
  np_subtract2 (cols_from_1 mags) (cols_to_last mags).

(** The count the specification speaks of: the number of indices [i] of [y]
    with [|y[i] - y_pred[i]| <= thresh]. *)
Definition within (y y_pred : ndarray1) (thresh : float64) (i : nat) : bool :=
  f_le (f_abs (f_sub (nth i y NaN) (nth i y_pred NaN))) thresh.

Definition count_within (y y_pred : ndarray1) (thresh : float64) : nat :=
  length (List.filter (within y y_pred thresh) (seq 0 (length y))).

(** An estimator: any object with a [predict] method, which may raise. *)
Record estimator : Type := mk_estimator {
  predict : ndarray2 → result ndarray1
}.

(** The default of the keyword argument [thresh=0.05]. *)
Definition thresh_default : float64 := float_lit (5 # 100).

(** [[
def outlier_score(model, X, y, thresh=0.05):
    y_pred = model.predict(X)
    diff = abs(y - y_pred)
    return np.sum(diff <= thresh) / len(y)
]]
    [thresh] is [None] when the caller leaves the keyword argument out. *)
Definition outlier_score (model : estimator) (X : ndarray2) (y : ndarray1)
    (thresh : option float64) : result float64 :=
  let thresh := default thresh_default thresh in
  y_pred ← predict model X;
  d ← np_subtract y y_pred;
  let diff := np_abs d in
  Ok (np_true_divide (np_sum (np_less_equal diff thresh)) (len y)).

End Numpy.

(** ** Two roundings *)

(** Exact arithmetic: the rounding that rounds nothing. *)
Definition exact (q : Q) : Q := q.

(** Rounding to the nearest multiple of [1/4], ties upwards: a coarse grid
    on which the effect of rounding shows on small examples. *)
Definition quarters (q : Q) : Q :=
  inject_Z (Qfloor (q * 4 + (1 # 2))) / 4.

(** ** Sample data *)

Module Sample.

(** Three galaxies with true redshifts [y] and predictions [y_pred]: the
    absolute differences are 0.05, 0 and 1. *)
Definition y : ndarray1 := [Fin (15 # 100); Fin (30 # 100); Fin 2].
Definition y_pred : ndarray1 := [Fin (10 # 100); Fin (30 # 100); Fin 1].

(** Predictions whose residuals are the opposite of those of [y_pred]. *)
Definition y_mirror : ndarray1 := [Fin (20 # 100); Fin (30 # 100); Fin 3].

Definition X : ndarray2 :=
  mk_ndarray2 3 4 [[Fin 1; Fin 2; Fin 1; Fin 1];
                   [Fin 1; Fin 1; Fin 2; Fin 1];
                   [Fin 0; Fin 1; Fin 1; Fin 3]].

(** A fitted model, its mirror image, a model that has not been fitted, and
    one that predicts nothing. *)
Definition model : estimator := mk_estimator (λ _, Ok y_pred).
Definition mirror : estimator := mk_estimator (λ _, Ok y_mirror).
Definition unfitted : estimator :=
  mk_estimator (λ _, Raise (LibraryError "NotFittedError")).
Definition silent : estimator := mk_estimator (λ _, Ok []).

(** A catalog of two galaxies. *)
Definition data : recarray :=
  mk_recarray
    ["ra"; "modelMag_u"; "modelMag_g"; "z"; "modelMag_r"; "modelMag_i";
     "modelMag_z"]%string
    [[Fin 180; Fin 19; Fin 18; Fin (1 # 10); Fin 17; Fin (33 # 2); Fin 16];
     [Fin 200; Fin 21; Fin 19; Fin (3 # 10); Fin 18; Fin (35 # 2); Fin 17]].

Definition magnitudes : ndarray2 :=
  mk_ndarray2 2 5 [[Fin 19; Fin 18; Fin 17; Fin (33 # 2); Fin 16];
                   [Fin 21; Fin 19; Fin 18; Fin (35 # 2); Fin 17]].

End Sample.

(** ** The plotting cell *)

Section Plot.

Variable rnd : Q → Q.

(** [a[:n, j]]: column [j] of the first [n] rows (all of them when there
    are fewer); numpy raises [IndexError] for a column the array does not
    have. *)
Definition first_rows_column (n j : nat) (a : ndarray2) : result ndarray1 :=
  if (j <? ncols a)%nat then Ok ((λ r, nth j r NaN) <$> take n (cells a))
  else Raise (LibraryError "IndexError").

(** [N = 50000] *)
Definition plot_N : nat := Z.to_nat 50000.

(** The two vectors handed to [ax.plot(colors[:N, 1], z[:N], ...)], with
    [mags], [z] and [colors] as the cells above build them from [data]. *)
Definition plot_xy (data : recarray) : result (ndarray1 * ndarray1) :=
  m ← mags data;
  zv ← z data;
  c ← colors rnd m;
  x ← first_rows_column plot_N 1 c;
  Ok (x, take plot_N zv).

End Plot.

(** ** Predicates used in the statements *)

Definition is_nan (a : float64) : bool :=
  match a with
  | NaN => true
  | _ => false
  end.

Definition is_finite (a : float64) : bool :=
  match a with
  | Fin _ => true
  | _ => false
  end.

(** ** More sample data *)

Module Batch.

(** A matrix of one galaxy and two bands. *)
Definition two_bands : ndarray2 := mk_ndarray2 1 2 [[Fin 19; Fin 18]].

(** A model that predicts one value for the whole batch, and one that
    repeats the true values of [Sample.y]. *)
Definition constant : estimator := mk_estimator (λ _, Ok [Fin (30 # 100)]).
Definition perfect : estimator := mk_estimator (λ _, Ok Sample.y).

(** [Sample.y] and [Sample.y_pred] with the first two galaxies swapped. *)
Definition y_swapped : ndarray1 := [Fin (30 # 100); Fin (15 # 100); Fin 2].
Definition swapped : estimator :=
  mk_estimator (λ _, Ok [Fin (30 # 100); Fin (10 # 100); Fin 1]).

(** A batch with a missing redshift and an infinite one, and its model. *)
Definition y_gaps : ndarray1 := [NaN; Fin 1; PosInf].
Definition y_gaps_pred : ndarray1 := [Fin 1; Fin 1; PosInf].
Definition gaps : estimator := mk_estimator (λ _, Ok y_gaps_pred).

(** A model whose predictions are the true values [Sample.y], to be scored
    against [Sample.y_pred]. *)
Definition truth : estimator := mk_estimator (λ _, Ok Sample.y).

End Batch.

(** * Properties *)

(** ** Lists and counting *)

Lemma count_filter_succ (P : nat → bool) (n : nat) :
  length (List.filter P (seq 0 (S n))) =
  ((if P 0%nat then 1 else 0) + length (List.filter (λ i, P (S i)) (seq 0 n)))%nat.
Proof.
  change (seq 0 (S n)) with (0%nat :: seq 1 n).
  rewrite <- (fmap_S_seq 0 n). cbn [List.filter].
  assert (Hmap : ∀ l, length (List.filter P (S <$> l)) =
                      length (List.filter (λ i, P (S i)) l)).
  { induction l as [|k l IH]; [done|]. cbn.
    destruct (P (S k)); cbn; by rewrite IH. }
  destruct (P 0%nat); cbn; by rewrite Hmap.
Qed.

Lemma np_sum_cons (b : bool) (bs : list bool) :
  np_sum (b :: bs) = (if b then 1 else 0) + np_sum bs.
Proof. reflexivity. Qed.

Lemma broadcast_dim_same (n : nat) : broadcast_dim n n = Some n.
Proof. unfold broadcast_dim. by rewrite Nat.eqb_refl. Qed.

Lemma broadcast_to_same {A} (l : list A) : broadcast_to (length l) l = l.
Proof. by destruct l as [|x [|x' l]]. Qed.

Lemma broadcast_to_length {A} (k : nat) (l : list A) :
  length l = k → broadcast_to k l = l.
Proof. intros <-. apply broadcast_to_same. Qed.

(** ** Structured arrays *)

Lemma field_index_lookup (name : string) (names : list string) (k : nat) :
  field_index name names = Some k → names !! k = Some name.
Proof.
  revert k. induction names as [|n names IH]; intros k; cbn; [done|].
  destruct (String.eqb_spec name n) as [->|Hne]; [by intros [= <-]|].
  destruct (field_index name names) as [k'|]; [|done].
  intros [= <-]. by apply IH.
Qed.

Lemma field_index_elem_of (name : string) (names : list string) :
  name ∈ names → is_Some (field_index name names).
Proof.
  induction names as [|n names IH]; intros Hin; [by apply elem_of_nil in Hin|].
  cbn. destruct (String.eqb_spec name n) as [->|Hne]; [done|].
  apply elem_of_cons in Hin as [?|Hin]; [done|].
  destruct (IH Hin) as [k ->]. done.
Qed.

(** On a well-formed array, a field the dtype has is present in every
    record, and [data[name]] lists it record by record. *)
Lemma field_value (d : recarray) (name : string) (k : nat) (r : list float64) :
  field_index name (dtype_names d) = Some k →
  length r = length (dtype_names d) →
  field d name r = Some (nth k r NaN).
Proof.
  intros Hk Hlen. unfold field. rewrite Hk. cbn.
  apply field_index_lookup, lookup_lt_Some in Hk.
  destruct (nth_lookup_or_length r k NaN); [done|lia].
Qed.

Lemma getfield_column (d : recarray) (name : string) (k : nat) :
  field_index name (dtype_names d) = Some k →
  getfield d name = Ok ((λ r, nth k r NaN) <$> records d).
Proof. intros Hk. unfold getfield. by rewrite Hk. Qed.

Lemma column_nth (d : recarray) (k i : nat) (r : list float64) :
  records d !! i = Some r →
  nth i ((λ r, nth k r NaN) <$> records d) NaN = nth k r NaN.
Proof.
  intros Hr. apply nth_lookup_Some. by rewrite list_lookup_fmap, Hr.
Qed.

(** C5: on a dataset that has the five [modelMag_] fields and [z], [mags]
    has shape [N x 5] for [N] records, row [i] of [mags] holds record [i]'s
    [modelMag] values in the band order u, g, r, i, z, and [z] has length
    [N] (entry [i] being record [i]'s redshift). *)
Theorem mags_rows_are_modelMag_ugriz (data : recarray) :
  wf_recarray data →
  Forall (λ f, modelMag_name f ∈ dtype_names data) (list_ascii_of_string "ugriz") →
  "z"%string ∈ dtype_names data →
  ∃ m zv,
    mags data = Ok m ∧ z data = Ok zv ∧
    shape m = (length (records data), 5%nat) ∧ wf_ndarray2 m ∧
    length zv = length (records data) ∧
    ∀ i rec, records data !! i = Some rec →
      ∃ mu mg mr mi mz rz,
        field data "modelMag_u" rec = Some mu ∧
        field data "modelMag_g" rec = Some mg ∧
        field data "modelMag_r" rec = Some mr ∧
        field data "modelMag_i" rec = Some mi ∧
        field data "modelMag_z" rec = Some mz ∧
        field data "z" rec = Some rz ∧
        cells m !! i = Some [mu; mg; mr; mi; mz] ∧
        zv !! i = Some rz.
Proof.
  intros Hwf Hbands Hz. cbn in Hbands.
  repeat match goal with
         | H : Forall _ (_ :: _) |- _ => apply Forall_cons in H as [? H]
         end.
  repeat match goal with
         | H : _ ∈ dtype_names data |- _ =>
             apply field_index_elem_of in H as [? H]
         end.
  unfold mags, z. cbn [list_ascii_of_string comprehension].
  repeat match goal with
         | H : field_index _ _ = Some _ |- _ =>
             rewrite (getfield_column _ _ _ H); cbn [mbind result_bind]
         end.
  cbn [np_vstack forallb]. rewrite !length_fmap, Nat.eqb_refl.
  cbn [andb mbind result_bind].
  do 2 eexists; split; [done|split; [done|]].
  split; [done|]. split; [|split].
  - split; cbn [cells transpose nrows ncols].
    + by rewrite length_fmap, length_seq.
    + apply Forall_fmap, Forall_forall. by intros j _.
  - by rewrite length_fmap.
  - intros i rec Hrec.
    assert (Hlen : length rec = length (dtype_names data)).
    { by eapply (proj1 (Forall_lookup _ _) Hwf). }
    do 6 eexists.
    repeat match goal with
           | H : field_index _ _ = Some _ |- _ =>
               split; [exact (field_value _ _ _ _ H Hlen)|]
           end.
    cbn [cells transpose ncols]. rewrite !list_lookup_fmap, Hrec.
    rewrite (proj2 (lookup_seq 0 _ i i)) by (apply lookup_lt_Some in Hrec; done).
    cbn [fmap option_fmap option_map list_fmap].
    by rewrite !(column_nth _ _ _ _ Hrec).
Qed.

Section Properties.

Variable rnd : Q → Q.

Lemma np_subtract_same_length (a b : ndarray1) :
  length a = length b →
  np_subtract rnd a b = Ok (zip_with (f_sub rnd) a b).
Proof.
  intros Hlen. unfold np_subtract. rewrite Hlen, broadcast_dim_same.
  by rewrite <- Hlen at 1; rewrite !broadcast_to_same.
Qed.

Lemma np_sum_count_within (y p : ndarray1) (t : float64) :
  length p = length y →
  np_sum (np_less_equal (np_abs (zip_with (f_sub rnd) y p)) t) =
  Z.of_nat (count_within rnd y p t).
Proof.
  revert p. induction y as [|a y IH]; intros [|b p] Hlen; try done.
  cbn [zip_with]. unfold np_less_equal, np_abs in *.
  rewrite !fmap_cons, np_sum_cons, IH by (cbn in Hlen; lia).
  unfold count_within. cbn [length]. rewrite count_filter_succ.
  unfold within. cbn [nth].
  destruct (f_le (f_abs (f_sub rnd a b)) t); lia.
Qed.

Lemma count_within_le_length (y p : ndarray1) (t : float64) :
  (count_within rnd y p t ≤ length y)%nat.
Proof.
  unfold count_within.
  etransitivity; [apply List.filter_length_le|]. by rewrite length_seq.
Qed.

(** What a call returns once [predict] has returned a vector as long as [y]. *)
Lemma outlier_score_same_length model X (y p : ndarray1) thresh :
  predict model X = Ok p →
  length p = length y →
  outlier_score rnd model X y thresh =
  Ok (np_true_divide rnd
        (Z.of_nat (count_within rnd y p (default (thresh_default rnd) thresh)))
        (len y)).
Proof.
  intros Hp Hlen. unfold outlier_score. rewrite Hp. cbn [mbind result_bind].
  rewrite np_subtract_same_length by done. cbn [mbind result_bind].
  by rewrite np_sum_count_within.
Qed.

Lemma np_true_divide_nonzero (c n : Z) :
  n ≠ 0 → np_true_divide rnd c n = Fin (rnd (inject_Z c / inject_Z n)).
Proof. intros Hn. unfold np_true_divide. by destruct (Z.eqb_spec n 0). Qed.

(** C1: when [y] and [model.predict(X)] have the same positive length [n],
    [outlier_score(model, X, y, thresh)] is the number of indices [i] with
    [|y[i] - model.predict(X)[i]| <= thresh], divided by [n] (a float64
    division, so rounded to binary64). *)
Theorem outlier_score_is_fraction_within model X (y p : ndarray1) (thresh : float64) :
  predict model X = Ok p →
  length p = length y →
  (0 < length y)%nat →
  outlier_score rnd model X y (Some thresh) =
  Ok (Fin (rnd (inject_Z (Z.of_nat (count_within rnd y p thresh)) /
                inject_Z (Z.of_nat (length y))))).
Proof.
  intros Hp Hlen Hpos.
  rewrite (outlier_score_same_length _ _ _ _ _ Hp Hlen). cbn [default].
  rewrite np_true_divide_nonzero; [done|]. unfold len. lia.
Qed.

(** ** Colors *)

Lemma broadcast_rows (c : nat) (rows : list (list float64)) :
  c ≠ 1%nat → Forall (λ r, length r = c) rows → broadcast_to c <$> rows = rows.
Proof.
  intros Hc Hrows. rewrite <- (list_fmap_id rows) at 2.
  apply Forall_fmap_ext_1. eapply Forall_impl; [exact Hrows|].
  intros r Hr. by apply broadcast_to_length.
Qed.

(** C4: for the five-band magnitude matrix, [colors] has the same number of
    rows and four columns, and [colors[i, j] = mags[i, j+1] - mags[i, j]]
    for every row [i] and every [0 <= j < 4]. *)
Theorem colors_adjacent_differences (m : ndarray2) :
  wf_ndarray2 m →
  ncols m = 5%nat →
  ∃ c,
    colors rnd m = Ok c ∧ shape c = (nrows m, 4%nat) ∧ wf_ndarray2 c ∧
    ∀ i j, (i < nrows m)%nat → (j < 4)%nat →
      ∃ a b,
        at2 m i (j + 1) = Some a ∧ at2 m i j = Some b ∧
        at2 c i j = Some (f_sub rnd a b).
Proof.
  intros [Hrows Hcols] H5. unfold colors, np_subtract2.
  cbn [cols_from_1 cols_to_last nrows ncols cells].
  rewrite !broadcast_dim_same, H5. cbn [Nat.sub].
  rewrite H5 in Hcols.
  assert (Hfrom : Forall (λ r : list float64, length r = 4%nat) (drop 1 <$> cells m)).
  { apply Forall_fmap. eapply Forall_impl; [exact Hcols|].
    intros r Hr. cbn in Hr |- *. rewrite length_drop. lia. }
  assert (Hto : Forall (λ r : list float64, length r = 4%nat)
                  ((λ r, take (length r - 1) r) <$> cells m)).
  { apply Forall_fmap. eapply Forall_impl; [exact Hcols|].
    intros r Hr. cbn in Hr |- *. rewrite length_take. lia. }
  rewrite !broadcast_rows by done.
  rewrite !broadcast_to_length by (by rewrite length_fmap).
  eexists; split; [done|]. split; [done|]. split.
  - split; cbn [cells nrows ncols].
    + rewrite length_zip_with, !length_fmap. lia.
    + apply Forall_lookup. intros i r. rewrite lookup_zip_with.
      rewrite !list_lookup_fmap.
      destruct (cells m !! i) as [row|] eqn:Hrow; [|done]. cbn.
      intros [= <-].
      pose proof (proj1 (Forall_lookup _ _) Hcols i row Hrow) as Hlen.
      cbn in Hlen. rewrite length_zip_with, length_drop, length_take. lia.
  - intros i j Hi Hj. unfold at2. cbn [cells].
    rewrite lookup_zip_with, !list_lookup_fmap.
    destruct (lookup_lt_is_Some_2 (cells m) i) as [row Hrow]; [lia|].
    rewrite Hrow. cbn.
    pose proof (proj1 (Forall_lookup _ _) Hcols i row Hrow) as Hlen.
    cbn in Hlen.
    destruct (lookup_lt_is_Some_2 row (j + 1)) as [a Ha]; [lia|].
    destruct (lookup_lt_is_Some_2 row j) as [b Hb]; [lia|].
    exists a, b. split; [done|split; [done|]].
    rewrite lookup_zip_with, lookup_drop, lookup_take_lt by lia.
    replace (1 + j)%nat with (j + 1)%nat by lia. by rewrite Ha, Hb.
Qed.

(** ** Comparisons *)

Lemma f_le_trans (a b c : float64) :
  f_le a b = true → f_le b c = true → f_le a c = true.
Proof.
  destruct a as [x| | |], b as [y| | |], c as [w| | |]; cbn; try done.
  rewrite !Qle_bool_iff. apply Qle_trans.
Qed.

Lemma f_eq_le (a b : float64) : f_eq a b = true → f_le a b = true.
Proof.
  destruct a as [x| | |], b as [y| | |]; cbn; try done.
  rewrite Qeq_bool_iff, Qle_bool_iff. intros ->. apply Qle_refl.
Qed.

Lemma Qle_bool_wd (x y w : Q) : (x == y)%Q → Qle_bool x w = Qle_bool y w.
Proof.
  intros Hxy. apply eq_true_iff_eq. rewrite !Qle_bool_iff. by rewrite Hxy.
Qed.

(** Opposite values have the same absolute value, hence pass the same
    threshold tests. *)
Lemma f_abs_opposite (a b t : float64) :
  f_eq a (f_neg b) = true → f_le (f_abs a) t = f_le (f_abs b) t.
Proof.
  destruct a as [x| | |], b as [y| | |]; cbn; try done.
  rewrite Qeq_bool_iff. intros Hxy.
  destruct t as [w| | |]; cbn; try done.
  apply Qle_bool_wd. rewrite Hxy. apply Qabs_opp.
Qed.

Lemma np_less_equal_opposite (r1 r2 : ndarray1) (t : float64) :
  Forall2 (λ a b, f_eq a (f_neg b) = true) r1 r2 →
  np_less_equal (np_abs r1) t = np_less_equal (np_abs r2) t.
Proof.
  unfold np_less_equal, np_abs.
  induction 1 as [|a b r1' r2' Hab _ IH]; [done|].
  rewrite !fmap_cons. by rewrite IH, (f_abs_opposite a b t Hab).
Qed.

Lemma filter_length_mono {A} (P Q : A → bool) (l : list A) :
  (∀ x, P x = true → Q x = true) →
  (length (List.filter P l) ≤ length (List.filter Q l))%nat.
Proof.
  intros HPQ. induction l as [|x l IH]; [done|]. cbn.
  destruct (P x) eqn:HP.
  - rewrite (HPQ x HP). cbn. lia.
  - destruct (Q x); cbn; lia.
Qed.

Lemma count_within_mono (y p : ndarray1) (t1 t2 : float64) :
  f_le t1 t2 = true →
  (count_within rnd y p t1 ≤ count_within rnd y p t2)%nat.
Proof.
  intros Ht. apply filter_length_mono. intros i. unfold within.
  intros Hi. by apply f_le_trans with t1.
Qed.

(** ** Exceptions *)

Lemma np_subtract_raises_iff (a b : ndarray1) (e : pyexn) :
  np_subtract rnd a b = Raise e ↔
  e = ValueError ∧ length a ≠ length b ∧ length a ≠ 1%nat ∧ length b ≠ 1%nat.
Proof.
  unfold np_subtract, broadcast_dim.
  destruct (length a =? length b)%nat eqn:Hab;
    [apply Nat.eqb_eq in Hab|apply Nat.eqb_neq in Hab].
  { split; [done|]. by intros (_ & ? & _). }
  destruct (length a =? 1)%nat eqn:Ha;
    [apply Nat.eqb_eq in Ha|apply Nat.eqb_neq in Ha].
  { split; [done|]. by intros (_ & _ & ? & _). }
  destruct (length b =? 1)%nat eqn:Hb;
    [apply Nat.eqb_eq in Hb|apply Nat.eqb_neq in Hb].
  { split; [done|]. by intros (_ & _ & _ & ?). }
  split; [by intros [= <-]|by intros (-> & _)].
Qed.

(** C6: [outlier_score] has no handler of its own.  It raises [e] exactly
    when [model.predict(X)] raises [e], or [y - y_pred] raises [e]; the
    subtraction raises only [ValueError], and only for lengths that differ
    and are both other than 1 (no broadcasting); once both have returned, the
    final division returns without raising (numpy's default error state) and
    its value is what the call returns. *)
Theorem outlier_score_raises_iff model X (y : ndarray1) (thresh : option float64)
    (e : pyexn) :
  (outlier_score rnd model X y thresh = Raise e ↔
     predict model X = Raise e ∨
     ∃ p, predict model X = Ok p ∧ np_subtract rnd y p = Raise e) ∧
  (∀ p, np_subtract rnd y p = Raise e ↔
     e = ValueError ∧ length y ≠ length p ∧
     length y ≠ 1%nat ∧ length p ≠ 1%nat) ∧
  (∀ p d, predict model X = Ok p → np_subtract rnd y p = Ok d →
     outlier_score rnd model X y thresh =
     Ok (np_true_divide rnd
           (np_sum (np_less_equal (np_abs d)
                      (default (thresh_default rnd) thresh)))
           (len y))).
Proof.
  split; [|split].
  - unfold outlier_score.
    destruct (predict model X) as [p|e'] eqn:Hp; cbn [mbind result_bind].
    + destruct (np_subtract rnd y p) as [d|e''] eqn:Hd; cbn [mbind result_bind].
      * split; [done|]. intros [?|(p' & [= <-] & Hd')]; [done|]. congruence.
      * split; [intros [= <-]; eauto|].
        intros [?|(p' & [= <-] & Hd')]; [done|]. congruence.
    + split; [intros [= <-]; eauto|].
      intros [[= <-]|(p' & ? & _)]; done.
  - intros p. apply np_subtract_raises_iff.
  - intros p d Hp Hd. unfold outlier_score.
    rewrite Hp. cbn [mbind result_bind]. by rewrite Hd.
Qed.

(** C7 as the code has it: for an empty [y] the call returns NaN whenever
    [model.predict(X)] returns an empty or a one-element vector (the latter
    is broadcast); the final division [0 / 0] gives NaN and does not fail.
    Only [predict] itself, or predictions of length 2 and more, raise. *)
Theorem outlier_score_empty model X (thresh : option float64) :
  outlier_score rnd model X [] thresh =
  match predict model X with
  | Raise e => Raise e
  | Ok p => if (length p <=? 1)%nat then Ok NaN else Raise ValueError
  end.
Proof.
  unfold outlier_score.
  destruct (predict model X) as [p|e]; [|done]. cbn [mbind result_bind].
  by destruct p as [|b [|b' p]].
Qed.

(** C9: two models whose residuals on [X] are element-wise opposite,
    [y - predict1(X) == -(y - predict2(X))], get the same score for every
    threshold. *)
Theorem outlier_score_opposite_residuals model1 model2 X (y p1 p2 r1 r2 : ndarray1) :
  predict model1 X = Ok p1 →
  predict model2 X = Ok p2 →
  np_subtract rnd y p1 = Ok r1 →
  np_subtract rnd y p2 = Ok r2 →
  Forall2 (λ a b, f_eq a (f_neg b) = true) r1 r2 →
  ∀ thresh : option float64,
    outlier_score rnd model1 X y thresh = outlier_score rnd model2 X y thresh.
Proof.
  intros Hp1 Hp2 Hr1 Hr2 Hopp thresh. unfold outlier_score.
  rewrite Hp1, Hp2. cbn [mbind result_bind]. rewrite Hr1, Hr2.
  cbn [mbind result_bind]. by rewrite (np_less_equal_opposite r1 r2 _ Hopp).
Qed.

(** C3: leaving [thresh] out is the same as passing [0.05], and a prediction
    whose absolute difference equals the threshold is counted: in front of
    [n] further predictions of which [c] are within tolerance, the score is
    [(1 + c) / (1 + n)]. *)
Theorem outlier_score_default_and_boundary model X (a b : float64)
    (y p : ndarray1) (thresh : float64) :
  predict model X = Ok (b :: p) →
  length p = length y →
  f_eq (f_abs (f_sub rnd a b)) thresh = true →
  outlier_score rnd model X (a :: y) None =
    outlier_score rnd model X (a :: y) (Some (Fin (rnd (5 # 100)))) ∧
  outlier_score rnd model X (a :: y) (Some thresh) =
    Ok (Fin (rnd (inject_Z (1 + Z.of_nat (count_within rnd y p thresh)) /
                  inject_Z (1 + Z.of_nat (length y))))).
Proof.
  intros Hp Hlen Hb. split; [done|].
  rewrite (outlier_score_same_length _ _ _ (b :: p) _ Hp)
    by (cbn; by rewrite Hlen).
  rewrite np_true_divide_nonzero by (unfold len; cbn [length]; lia).
  change (default _ (Some thresh)) with thresh.
  replace (len (a :: y)) with (1 + Z.of_nat (length y))
    by (unfold len; cbn [length]; lia).
  replace (Z.of_nat (count_within rnd (a :: y) (b :: p) thresh))
    with (1 + Z.of_nat (count_within rnd y p thresh)); [done|].
  unfold count_within. cbn [length]. rewrite count_filter_succ.
  unfold within. cbn [nth]. rewrite (f_eq_le _ _ Hb). lia.
Qed.

Section Rounding.

(** Rounding to nearest is monotone and leaves 0 and 1, which are binary64
    numbers, unchanged. *)
Hypothesis rnd_mono : ∀ a b : Q, (a <= b)%Q → (rnd a <= rnd b)%Q.
Hypothesis rnd_0 : (rnd 0 == 0)%Q.
Hypothesis rnd_1 : (rnd 1 == 1)%Q.

Lemma fraction_bounds (c n : Z) :
  0 ≤ c ≤ n → 0 < n → (0 <= inject_Z c / inject_Z n <= 1)%Q.
Proof.
  intros [Hc Hcn] Hn.
  assert (Hn' : (inject_Z 0 < inject_Z n)%Q) by (by rewrite <- Zlt_Qlt).
  split.
  - apply Qle_shift_div_l; [done|]. rewrite Qmult_0_l.
    change (inject_Z 0 <= inject_Z c)%Q. by rewrite <- Zle_Qle.
  - apply Qle_shift_div_r; [done|]. rewrite Qmult_1_l. by rewrite <- Zle_Qle.
Qed.

(** C2: for a non-empty [y] of the same length as [model.predict(X)], the
    value returned by [outlier_score] lies in the closed interval [0, 1]. *)
Theorem outlier_score_in_unit_interval model X (y p : ndarray1)
    (thresh : option float64) :
  predict model X = Ok p →
  length p = length y →
  (0 < length y)%nat →
  ∃ v, outlier_score rnd model X y thresh = Ok v ∧
       f_le (Fin 0) v = true ∧ f_le v (Fin 1) = true.
Proof.
  intros Hp Hlen Hpos.
  rewrite (outlier_score_same_length _ _ _ _ _ Hp Hlen).
  rewrite np_true_divide_nonzero by (unfold len; lia).
  eexists; split; [done|]. cbn [f_le].
  set (t := default _ thresh).
  pose proof (count_within_le_length y p t) as Hle.
  destruct (fraction_bounds (Z.of_nat (count_within rnd y p t)) (len y))
    as [H0 H1]; [unfold len; lia..|].
  split; apply Qle_bool_iff.
  - rewrite <- rnd_0. by apply rnd_mono.
  - rewrite <- rnd_1. by apply rnd_mono.
Qed.

(** C8: for a non-empty [y] of the same length as [model.predict(X)] and
    thresholds [t1 <= t2], the score at [t1] is at most the score at [t2]. *)
Theorem outlier_score_monotone_in_thresh model X (y p : ndarray1) (t1 t2 : float64) :
  predict model X = Ok p →
  length p = length y →
  (0 < length y)%nat →
  f_le t1 t2 = true →
  ∃ v1 v2,
    outlier_score rnd model X y (Some t1) = Ok v1 ∧
    outlier_score rnd model X y (Some t2) = Ok v2 ∧
    f_le v1 v2 = true.
Proof.
  intros Hp Hlen Hpos Ht.
  rewrite !(outlier_score_same_length _ _ _ _ _ Hp Hlen).
  rewrite !np_true_divide_nonzero by (unfold len; lia).
  do 2 eexists; split; [done|split; [done|]]. cbn [f_le from_option id].
  apply Qle_bool_iff, rnd_mono.
  pose proof (count_within_mono y p t1 t2 Ht) as Hc.
  unfold Qdiv. apply Qmult_le_compat_r.
  - rewrite <- Zle_Qle. lia.
  - apply Qinv_le_0_compat. change (inject_Z 0 <= inject_Z (len y))%Q.
    rewrite <- Zle_Qle. unfold len. lia.
Qed.

End Rounding.

End Properties.

(** ** The roundings satisfy what the theorems ask of a rounding *)

Lemma quarters_mono (a b : Q) : (a <= b)%Q → (quarters a <= quarters b)%Q.
Proof.
  intros Hab. unfold quarters, Qdiv. apply Qmult_le_compat_r; [|done].
  rewrite <- Zle_Qle. apply Qfloor_resp_le, Qplus_le_compat; [|apply Qle_refl].
  by apply Qmult_le_compat_r.
Qed.

Lemma quarters_0 : (quarters 0 == 0)%Q.
Proof. reflexivity. Qed.

Lemma quarters_1 : (quarters 1 == 1)%Q.
Proof. reflexivity. Qed.

(** ** The notebook on the sample data *)

Example mags_sample : mags Sample.data = Ok Sample.magnitudes.
Proof. reflexivity. Qed.

Example z_sample : z Sample.data = Ok [Fin (1 # 10); Fin (3 # 10)].
Proof. reflexivity. Qed.

Example colors_sample :
  colors exact Sample.magnitudes =
  Ok (mk_ndarray2 2 4 [[Fin (-1); Fin (-1); Fin (-1 # 2); Fin (-1 # 2)];
                       [Fin (-2); Fin (-1); Fin (-1 # 2); Fin (-1 # 2)]]).
Proof. reflexivity. Qed.

Example outlier_score_sample :
  outlier_score exact Sample.model Sample.X Sample.y None = Ok (Fin (2 # 3)).
Proof. reflexivity. Qed.

Example outlier_score_sample_rounded :
  outlier_score quarters Sample.model Sample.X Sample.y (Some (Fin (1 # 4))) =
  Ok (Fin (3 # 4)).
Proof. reflexivity. Qed.

(** A single prediction is broadcast against [y]; a single true value is
    broadcast against the predictions, and the score then leaves [0, 1]. *)
Example outlier_score_broadcast_y :
  outlier_score exact Sample.model Sample.X [Fin (3 # 10)] (Some (Fin 1)) =
  Ok (Fin 3).
Proof. reflexivity. Qed.

Example outlier_score_shape_mismatch :
  outlier_score exact Sample.model Sample.X [Fin 1; Fin 2] None =
  Raise ValueError.
Proof. reflexivity. Qed.

(** ** The theorems at the sample data *)

Lemma outlier_score_is_fraction_within_sample :
  outlier_score exact Sample.model Sample.X Sample.y (Some (Fin (5 # 100))) =
  Ok (Fin (exact
        (inject_Z (Z.of_nat (count_within exact Sample.y Sample.y_pred (Fin (5 # 100)))) /
         inject_Z (Z.of_nat (length Sample.y))))).
Proof.
  apply (outlier_score_is_fraction_within exact Sample.model Sample.X
           Sample.y Sample.y_pred (Fin (5 # 100)));
    [reflexivity | reflexivity | cbn; lia].
Defined.

Lemma outlier_score_in_unit_interval_sample :
  ∃ v, outlier_score quarters Sample.model Sample.X Sample.y None = Ok v ∧
       f_le (Fin 0) v = true ∧ f_le v (Fin 1) = true.
Proof.
  apply (outlier_score_in_unit_interval quarters quarters_mono quarters_0
           quarters_1 Sample.model Sample.X Sample.y Sample.y_pred None);
    [reflexivity | reflexivity | cbn; lia].
Defined.

Lemma outlier_score_default_and_boundary_sample :
  outlier_score exact Sample.model Sample.X Sample.y None =
    outlier_score exact Sample.model Sample.X Sample.y
      (Some (Fin (exact (5 # 100)))) ∧
  outlier_score exact Sample.model Sample.X Sample.y (Some (Fin (5 # 100))) =
    Ok (Fin (exact
          (inject_Z (1 + Z.of_nat (count_within exact (tail Sample.y)
                                     (tail Sample.y_pred) (Fin (5 # 100)))) /
           inject_Z (1 + Z.of_nat (length (tail Sample.y)))))).
Proof.
  apply (outlier_score_default_and_boundary exact Sample.model Sample.X
           (Fin (15 # 100)) (Fin (10 # 100)) (tail Sample.y)
           (tail Sample.y_pred) (Fin (5 # 100)));
    reflexivity.
Defined.

Lemma colors_adjacent_differences_sample :
  ∃ c,
    colors exact Sample.magnitudes = Ok c ∧
    shape c = (nrows Sample.magnitudes, 4%nat) ∧ wf_ndarray2 c ∧
    ∀ i j, (i < nrows Sample.magnitudes)%nat → (j < 4)%nat →
      ∃ a b,
        at2 Sample.magnitudes i (j + 1) = Some a ∧
        at2 Sample.magnitudes i j = Some b ∧
        at2 c i j = Some (f_sub exact a b).
Proof.
  apply (colors_adjacent_differences exact Sample.magnitudes);
    [split; [reflexivity | repeat constructor] | reflexivity].
Defined.

Lemma mags_rows_are_modelMag_ugriz_sample :
  ∃ m zv,
    mags Sample.data = Ok m ∧ z Sample.data = Ok zv ∧
    shape m = (length (records Sample.data), 5%nat) ∧ wf_ndarray2 m ∧
    length zv = length (records Sample.data) ∧
    ∀ i rec, records Sample.data !! i = Some rec →
      ∃ mu mg mr mi mz rz,
        field Sample.data "modelMag_u" rec = Some mu ∧
        field Sample.data "modelMag_g" rec = Some mg ∧
        field Sample.data "modelMag_r" rec = Some mr ∧
        field Sample.data "modelMag_i" rec = Some mi ∧
        field Sample.data "modelMag_z" rec = Some mz ∧
        field Sample.data "z" rec = Some rz ∧
        cells m !! i = Some [mu; mg; mr; mi; mz] ∧
        zv !! i = Some rz.
Proof.
  apply (mags_rows_are_modelMag_ugriz Sample.data);
    [repeat constructor | repeat constructor | repeat constructor].
Defined.

Lemma outlier_score_raises_iff_sample :
  outlier_score exact Sample.unfitted Sample.X Sample.y None =
  Raise (LibraryError "NotFittedError").
Proof.
  apply (outlier_score_raises_iff exact Sample.unfitted Sample.X Sample.y None
           (LibraryError "NotFittedError")).
  left. reflexivity.
Defined.

Lemma outlier_score_monotone_in_thresh_sample :
  ∃ v1 v2,
    outlier_score quarters Sample.model Sample.X Sample.y (Some (Fin (1 # 100))) = Ok v1 ∧
    outlier_score quarters Sample.model Sample.X Sample.y (Some (Fin 1)) = Ok v2 ∧
    f_le v1 v2 = true.
Proof.
  apply (outlier_score_monotone_in_thresh quarters quarters_mono Sample.model
           Sample.X Sample.y Sample.y_pred (Fin (1 # 100)) (Fin 1));
    [reflexivity | reflexivity | cbn; lia | reflexivity].
Defined.

Lemma outlier_score_opposite_residuals_sample :
  outlier_score exact Sample.model Sample.X Sample.y (Some (Fin (1 # 2))) =
  outlier_score exact Sample.mirror Sample.X Sample.y (Some (Fin (1 # 2))).
Proof.
  refine (outlier_score_opposite_residuals exact Sample.model Sample.mirror
            Sample.X Sample.y Sample.y_pred Sample.y_mirror
            (zip_with (f_sub exact) Sample.y Sample.y_pred)
            (zip_with (f_sub exact) Sample.y Sample.y_mirror)
            _ _ _ _ _ (Some (Fin (1 # 2))));
    [reflexivity | reflexivity | reflexivity | reflexivity
    | vm_compute; repeat constructor].
Defined.

(** C7, as stated, fails: with an empty [y] and a model that predicts
    nothing, the call returns a value, NaN. *)
Lemma outlier_score_empty_returns_nan :
  outlier_score exact Sample.silent Sample.X [] None = Ok NaN.
Proof. reflexivity. Qed.

(** * Further properties of the notebook's code *)

(** ** Arrays *)

Lemma broadcast_rows_same (c : nat) (rows : list (list float64)) :
  Forall (λ r, length r = c) rows → broadcast_to c <$> rows = rows.
Proof.
  intros Hrows. rewrite <- (list_fmap_id rows) at 2.
  apply Forall_fmap_ext_1. eapply Forall_impl; [exact Hrows|].
  intros r Hr. by apply broadcast_to_length.
Qed.

Lemma tabulate_nth {A} (l : list A) (d : A) :
  (λ j, nth j l d) <$> seq 0 (length l) = l.
Proof.
  apply list_eq. intros i. rewrite list_lookup_fmap.
  destruct (l !! i) as [x|] eqn:Hi.
  - rewrite (proj2 (lookup_seq 0 _ i i)) by (apply lookup_lt_Some in Hi; done).
    cbn. by rewrite (nth_lookup_Some _ _ _ _ Hi).
  - apply lookup_ge_None in Hi.
    destruct (seq 0 (length l) !! i) as [j|] eqn:Hj; [|done].
    apply lookup_seq in Hj. lia.
Qed.

(** X5: [.T] is an involution on well-formed arrays, empty ones included. *)
Theorem transpose_involutive (a : ndarray2) :
  wf_ndarray2 a → transpose (transpose a) = a.
Proof.
  destruct a as [n c rows]. intros [Hn Hc]. cbn in Hn, Hc.
  unfold transpose. cbn [nrows ncols cells]. f_equal.
  apply list_eq. intros i. rewrite list_lookup_fmap.
  destruct (rows !! i) as [row|] eqn:Hrow.
  - rewrite (proj2 (lookup_seq 0 _ i i))
      by (apply lookup_lt_Some in Hrow; lia).
    cbn. f_equal. rewrite <- list_fmap_compose.
    pose proof (proj1 (Forall_lookup _ _) Hc i row Hrow) as Hlen.
    cbn in Hlen. etransitivity; [|apply (tabulate_nth row NaN)].
    rewrite Hlen.
    apply Forall_fmap_ext_1, Forall_forall. intros j _. cbn.
    apply nth_lookup_Some. by rewrite list_lookup_fmap, Hrow.
  - apply lookup_ge_None in Hrow.
    destruct (seq 0 n !! i) as [j|] eqn:Hj; [|done].
    apply lookup_seq in Hj. lia.
Qed.

(** ** Reading the catalog *)

Lemma field_index_Some_elem_of (name : string) (names : list string) (k : nat) :
  field_index name names = Some k → name ∈ names.
Proof.
  intros Hk. apply field_index_lookup in Hk. by eapply list_elem_of_lookup_2.
Qed.

Lemma getfield_raises_iff (d : recarray) (name : string) (e : pyexn) :
  getfield d name = Raise e ↔ e = ValueError ∧ name ∉ dtype_names d.
Proof.
  unfold getfield. destruct (field_index name (dtype_names d)) as [k|] eqn:Hk.
  - apply field_index_Some_elem_of in Hk. split; [done|]. by intros [_ ?].
  - split; [intros [= <-]; split; [done|]|by intros [-> _]].
    intros Hin. apply field_index_elem_of in Hin as [k Hk']. congruence.
Qed.

Lemma getfield_Ok_inv (d : recarray) (name : string) (col : ndarray1) :
  getfield d name = Ok col →
  name ∈ dtype_names d ∧ length col = length (records d).
Proof.
  unfold getfield. destruct (field_index name (dtype_names d)) as [k|] eqn:Hk;
    [|done].
  intros [= <-]. split; [by eapply field_index_Some_elem_of|].
  by rewrite length_fmap.
Qed.

(** X2: building [mags] raises exactly when the dtype lacks one of the five
    [modelMag_] fields, and then it is numpy's [ValueError]; [np.vstack]
    itself never fails, the five columns having one entry per record.
    Likewise [z] raises exactly when the dtype has no field [z]. *)
Theorem mags_z_raise_iff_field_missing (data : recarray) (e : pyexn) :
  (mags data = Raise e ↔
     e = ValueError ∧
     ∃ f, f ∈ list_ascii_of_string "ugriz" ∧
          modelMag_name f ∉ dtype_names data) ∧
  (z data = Raise e ↔ e = ValueError ∧ "z"%string ∉ dtype_names data).
Proof.
  split; [|apply getfield_raises_iff].
  unfold mags. cbn [list_ascii_of_string comprehension].
  destruct (getfield data (modelMag_name "u")) as [cu|eu] eqn:Hu;
    cbn [mbind result_bind].
  2:{ apply getfield_raises_iff in Hu as [-> Hu].
      split; [intros [= <-]; split; [done|]|by intros [-> _]].
      eexists; split; [|exact Hu]. cbn. repeat constructor. }
  destruct (getfield data (modelMag_name "g")) as [cg|eg] eqn:Hg;
    cbn [mbind result_bind].
  2:{ apply getfield_raises_iff in Hg as [-> Hg].
      split; [intros [= <-]; split; [done|]|by intros [-> _]].
      eexists; split; [|exact Hg]. cbn. repeat constructor. }
  destruct (getfield data (modelMag_name "r")) as [cr|er] eqn:Hr;
    cbn [mbind result_bind].
  2:{ apply getfield_raises_iff in Hr as [-> Hr].
      split; [intros [= <-]; split; [done|]|by intros [-> _]].
      eexists; split; [|exact Hr]. cbn. repeat constructor. }
  destruct (getfield data (modelMag_name "i")) as [ci|ei] eqn:Hi;
    cbn [mbind result_bind].
  2:{ apply getfield_raises_iff in Hi as [-> Hi].
      split; [intros [= <-]; split; [done|]|by intros [-> _]].
      eexists; split; [|exact Hi]. cbn. repeat constructor. }
  destruct (getfield data (modelMag_name "z")) as [cz|ez] eqn:Hz;
    cbn [mbind result_bind].
  2:{ apply getfield_raises_iff in Hz as [-> Hz].
      split; [intros [= <-]; split; [done|]|by intros [-> _]].
      eexists; split; [|exact Hz]. cbn. repeat constructor. }
  apply getfield_Ok_inv in Hu as [Hu Lu], Hg as [Hg Lg], Hr as [Hr Lr],
    Hi as [Hi Li], Hz as [Hz Lz].
  cbn [np_vstack forallb]. rewrite Lu, Lg, Lr, Li, Lz, Nat.eqb_refl.
  cbn [andb mbind result_bind]. split; [done|].
  intros (_ & f & Hf & Hnot). apply list_elem_of_In in Hf. cbn in Hf.
  destruct Hf as [<-|[<-|[<-|[<-|[<-|[]]]]]]; done.
Qed.

(** [mags] spelled out, given where the dtype keeps the five bands. *)
Lemma mags_columns (data : recarray) (ku kg kr ki kz : nat) :
  field_index (modelMag_name "u") (dtype_names data) = Some ku →
  field_index (modelMag_name "g") (dtype_names data) = Some kg →
  field_index (modelMag_name "r") (dtype_names data) = Some kr →
  field_index (modelMag_name "i") (dtype_names data) = Some ki →
  field_index (modelMag_name "z") (dtype_names data) = Some kz →
  mags data =
  Ok (transpose
        (mk_ndarray2 5 (length (records data))
           ((λ k, (λ r, nth k r NaN) <$> records data) <$> [ku; kg; kr; ki; kz]))).
Proof.
  intros Hu Hg Hr Hi Hz. unfold mags. cbn [list_ascii_of_string comprehension].
  rewrite (getfield_column _ _ _ Hu), (getfield_column _ _ _ Hg),
    (getfield_column _ _ _ Hr), (getfield_column _ _ _ Hi),
    (getfield_column _ _ _ Hz).
  cbn [mbind result_bind np_vstack forallb].
  rewrite !length_fmap, Nat.eqb_refl. done.
Qed.

Lemma bands_present (data : recarray) :
  Forall (λ f, modelMag_name f ∈ dtype_names data) (list_ascii_of_string "ugriz") →
  ∃ ku kg kr ki kz,
    field_index (modelMag_name "u") (dtype_names data) = Some ku ∧
    field_index (modelMag_name "g") (dtype_names data) = Some kg ∧
    field_index (modelMag_name "r") (dtype_names data) = Some kr ∧
    field_index (modelMag_name "i") (dtype_names data) = Some ki ∧
    field_index (modelMag_name "z") (dtype_names data) = Some kz.
Proof.
  intros Hbands. cbn in Hbands.
  repeat match goal with
         | H : Forall _ (_ :: _) |- _ => apply Forall_cons in H as [? H]
         end.
  repeat match goal with
         | H : _ ∈ dtype_names data |- _ =>
             apply field_index_elem_of in H as [? H]
         end.
  eauto 10.
Qed.

Section FurtherProperties.

Variable rnd : Q → Q.

(** On a well-formed array the two slices have the same shape, so the
    subtraction of [colors] is element-wise and cannot fail. *)
Lemma colors_cells (m : ndarray2) :
  wf_ndarray2 m →
  colors rnd m =
  Ok (mk_ndarray2 (nrows m) (ncols m - 1)
        (zip_with (zip_with (f_sub rnd)) (drop 1 <$> cells m)
           ((λ r, take (length r - 1) r) <$> cells m))).
Proof.
  intros [Hrows Hcols]. unfold colors, np_subtract2.
  cbn [cols_from_1 cols_to_last nrows ncols cells].
  rewrite !broadcast_dim_same.
  rewrite !broadcast_rows_same.
  - by rewrite !broadcast_to_length by (by rewrite length_fmap).
  - apply Forall_fmap. eapply Forall_impl; [exact Hcols|].
    intros r Hr. cbn in Hr |- *. rewrite length_take. lia.
  - apply Forall_fmap. eapply Forall_impl; [exact Hcols|].
    intros r Hr. cbn in Hr |- *. rewrite length_drop. lia.
Qed.

(** X1: on a well-formed matrix of any width [colors] never raises; it keeps
    the rows and drops one column (none when there is no column), and entry
    [(i, j)] is [m[i, j+1] - m[i, j]]. *)
Theorem colors_any_width (m : ndarray2) :
  wf_ndarray2 m →
  ∃ c,
    colors rnd m = Ok c ∧ shape c = (nrows m, (ncols m - 1)%nat) ∧
    wf_ndarray2 c ∧
    ∀ i j, (i < nrows m)%nat → (j + 1 < ncols m)%nat →
      ∃ a b,
        at2 m i (j + 1) = Some a ∧ at2 m i j = Some b ∧
        at2 c i j = Some (f_sub rnd a b).
Proof.
  intros Hwf. rewrite (colors_cells m Hwf). destruct Hwf as [Hrows Hcols].
  eexists; split; [done|]. split; [done|]. split.
  - split; cbn [cells nrows ncols].
    + rewrite length_zip_with, !length_fmap. lia.
    + apply Forall_lookup. intros i r. rewrite lookup_zip_with.
      rewrite !list_lookup_fmap.
      destruct (cells m !! i) as [row|] eqn:Hrow; [|done]. cbn.
      intros [= <-].
      pose proof (proj1 (Forall_lookup _ _) Hcols i row Hrow) as Hlen.
      cbn in Hlen. rewrite length_zip_with, length_drop, length_take. lia.
  - intros i j Hi Hj. unfold at2. cbn [cells].
    rewrite lookup_zip_with, !list_lookup_fmap.
    destruct (lookup_lt_is_Some_2 (cells m) i) as [row Hrow]; [lia|].
    rewrite Hrow. cbn.
    pose proof (proj1 (Forall_lookup _ _) Hcols i row Hrow) as Hlen.
    cbn in Hlen.
    destruct (lookup_lt_is_Some_2 row (j + 1)) as [a Ha]; [lia|].
    destruct (lookup_lt_is_Some_2 row j) as [b Hb]; [lia|].
    exists a, b. split; [done|split; [done|]].
    rewrite lookup_zip_with, lookup_drop, lookup_take_lt by lia.
    replace (1 + j)%nat with (j + 1)%nat by lia. by rewrite Ha, Hb.
Qed.

(** The catalog through [mags] and [colors], given where the dtype keeps
    the five bands. *)
Lemma catalog_colors (data : recarray) (ku kg kr ki kz : nat) :
  field_index (modelMag_name "u") (dtype_names data) = Some ku →
  field_index (modelMag_name "g") (dtype_names data) = Some kg →
  field_index (modelMag_name "r") (dtype_names data) = Some kr →
  field_index (modelMag_name "i") (dtype_names data) = Some ki →
  field_index (modelMag_name "z") (dtype_names data) = Some kz →
  ∃ m c,
    mags data = Ok m ∧ colors rnd m = Ok c ∧
    shape c = (length (records data), 4%nat) ∧
    length (cells c) = length (records data) ∧
    ∀ i rec, records data !! i = Some rec →
      cells c !! i =
      Some [f_sub rnd (nth kg rec NaN) (nth ku rec NaN);
            f_sub rnd (nth kr rec NaN) (nth kg rec NaN);
            f_sub rnd (nth ki rec NaN) (nth kr rec NaN);
            f_sub rnd (nth kz rec NaN) (nth ki rec NaN)].
Proof.
  intros Hu Hg Hr Hi Hz. rewrite (mags_columns _ _ _ _ _ _ Hu Hg Hr Hi Hz).
  set (m := transpose _).
  assert (Hwf : wf_ndarray2 m).
  { split; cbn [m cells transpose nrows ncols].
    - by rewrite length_fmap, length_seq.
    - apply Forall_fmap, Forall_forall. by intros j _. }
  exists m. eexists. split; [done|]. rewrite (colors_cells m Hwf).
  split; [done|]. split; [done|]. cbn [cells]. split.
  - rewrite length_zip_with, !length_fmap. cbn [m cells transpose ncols].
    rewrite length_fmap, length_seq. lia.
  - intros i rec Hrec. rewrite lookup_zip_with, !list_lookup_fmap.
    cbn [m cells transpose ncols]. rewrite list_lookup_fmap.
    rewrite (proj2 (lookup_seq 0 _ i i)) by (apply lookup_lt_Some in Hrec; done).
    cbn. by rewrite !(column_nth _ _ _ _ Hrec).
Qed.

(** X3: from the catalog to the colors.  On a dataset that has the five
    [modelMag_] fields, [colors] of [mags] has shape [N x 4] and row [i]
    holds record [i]'s differences g - u, r - g, i - r, z - i. *)
Theorem colors_of_catalog (data : recarray) :
  wf_recarray data →
  Forall (λ f, modelMag_name f ∈ dtype_names data) (list_ascii_of_string "ugriz") →
  ∃ m c,
    mags data = Ok m ∧ colors rnd m = Ok c ∧
    shape c = (length (records data), 4%nat) ∧
    ∀ i rec, records data !! i = Some rec →
      ∃ mu mg mr mi mz,
        field data "modelMag_u" rec = Some mu ∧
        field data "modelMag_g" rec = Some mg ∧
        field data "modelMag_r" rec = Some mr ∧
        field data "modelMag_i" rec = Some mi ∧
        field data "modelMag_z" rec = Some mz ∧
        cells c !! i =
        Some [f_sub rnd mg mu; f_sub rnd mr mg; f_sub rnd mi mr; f_sub rnd mz mi].
Proof.
  intros Hwf Hbands.
  destruct (bands_present data Hbands)
    as (ku & kg & kr & ki & kz & Hu & Hg & Hr & Hi & Hz).
  destruct (catalog_colors data _ _ _ _ _ Hu Hg Hr Hi Hz)
    as (m & c & Hm & Hc & Hshape & _ & Hrows).
  exists m, c. do 3 (split; [done|]).
  intros i rec Hrec.
  assert (Hlen : length rec = length (dtype_names data)).
  { by eapply (proj1 (Forall_lookup _ _) Hwf). }
  do 5 eexists.
  split; [exact (field_value _ _ _ _ Hu Hlen)|].
  split; [exact (field_value _ _ _ _ Hg Hlen)|].
  split; [exact (field_value _ _ _ _ Hr Hlen)|].
  split; [exact (field_value _ _ _ _ Hi Hlen)|].
  split; [exact (field_value _ _ _ _ Hz Hlen)|].
  by apply Hrows.
Qed.

(** X4: the scatter plot gets two vectors of the same length, the smaller of
    [N = 50000] and the number of galaxies; for each plotted galaxy the
    abscissa is its r magnitude minus its g magnitude ([colors[:, 1]]) and
    the ordinate is its redshift. *)
Theorem plot_xy_aligned (data : recarray) :
  wf_recarray data →
  Forall (λ f, modelMag_name f ∈ dtype_names data) (list_ascii_of_string "ugriz") →
  "z"%string ∈ dtype_names data →
  ∃ x yv,
    plot_xy rnd data = Ok (x, yv) ∧
    length x = (plot_N `min` length (records data))%nat ∧
    length yv = (plot_N `min` length (records data))%nat ∧
    ∀ i rec, (i < plot_N)%nat → records data !! i = Some rec →
      ∃ mg mr rz,
        field data "modelMag_g" rec = Some mg ∧
        field data "modelMag_r" rec = Some mr ∧
        field data "z" rec = Some rz ∧
        x !! i = Some (f_sub rnd mr mg) ∧
        yv !! i = Some rz.
Proof.
  intros Hwf Hbands Hzin.
  destruct (bands_present data Hbands)
    as (ku & kg & kr & ki & kz & Hu & Hg & Hr & Hi & Hz).
  destruct (field_index_elem_of _ _ Hzin) as [kred Hred].
  destruct (catalog_colors data _ _ _ _ _ Hu Hg Hr Hi Hz)
    as (m & c & Hm & Hc & Hshape & Hcells & Hrows).
  unfold plot_xy, z. generalize plot_N. intros n.
  rewrite Hm. cbn [mbind result_bind].
  rewrite (getfield_column _ _ _ Hred). cbn [mbind result_bind].
  rewrite Hc. cbn [mbind result_bind].
  unfold first_rows_column. injection Hshape as _ Hcols. rewrite Hcols.
  cbn [Nat.ltb Nat.leb mbind result_bind].
  do 2 eexists. split; [done|].
  split; [by rewrite length_fmap, length_take, Hcells|].
  split; [by rewrite length_take, length_fmap|].
  intros i rec Hi' Hrec.
  assert (Hlen : length rec = length (dtype_names data)).
  { by eapply (proj1 (Forall_lookup _ _) Hwf). }
  do 3 eexists.
  split; [exact (field_value _ _ _ _ Hg Hlen)|].
  split; [exact (field_value _ _ _ _ Hr Hlen)|].
  split; [exact (field_value _ _ _ _ Hred Hlen)|].
  split.
  - by rewrite list_lookup_fmap, lookup_take_lt, (Hrows i rec Hrec).
  - by rewrite lookup_take_lt, list_lookup_fmap, Hrec.
Qed.

(** ** The score under broadcasting *)

Lemma outlier_score_after_subtract model X (y p d : ndarray1) thresh :
  predict model X = Ok p →
  np_subtract rnd y p = Ok d →
  outlier_score rnd model X y thresh =
  Ok (np_true_divide rnd
        (np_sum (np_less_equal (np_abs d) (default (thresh_default rnd) thresh)))
        (len y)).
Proof.
  intros Hp Hd. unfold outlier_score. rewrite Hp. cbn [mbind result_bind].
  by rewrite Hd.
Qed.

Lemma np_subtract_scalar_r (y : ndarray1) (b : float64) :
  np_subtract rnd y [b] =
  Ok (zip_with (f_sub rnd) y (replicate (length y) b)).
Proof.
  unfold np_subtract, broadcast_dim. cbn [length].
  destruct (length y =? 1)%nat eqn:Hn.
  - apply Nat.eqb_eq in Hn. rewrite broadcast_to_length by done.
    by rewrite Hn.
  - cbn [Nat.eqb]. rewrite broadcast_to_length by done. done.
Qed.

Lemma np_subtract_scalar_l (a : float64) (p : ndarray1) :
  np_subtract rnd [a] p =
  Ok (zip_with (f_sub rnd) (replicate (length p) a) p).
Proof.
  unfold np_subtract, broadcast_dim. cbn [length].
  destruct (1 =? length p)%nat eqn:Hn.
  - apply Nat.eqb_eq in Hn. rewrite (broadcast_to_length 1 p) by done.
    by rewrite <- Hn.
  - cbn [Nat.eqb]. by rewrite (broadcast_to_length (length p) p).
Qed.

(** X6: a model that predicts a single value has it compared with every
    entry of a non-empty [y] (numpy broadcasts it): the score is the number
    of [i] with [|y[i] - b| <= thresh], divided by [len(y)]. *)
Theorem outlier_score_single_prediction model X (y : ndarray1) (b thresh : float64) :
  predict model X = Ok [b] →
  (0 < length y)%nat →
  outlier_score rnd model X y (Some thresh) =
  Ok (Fin (rnd (inject_Z (Z.of_nat (count_within rnd y (replicate (length y) b) thresh)) /
                inject_Z (Z.of_nat (length y))))).
Proof.
  intros Hp Hpos.
  rewrite (outlier_score_after_subtract _ _ _ _ _ _ Hp (np_subtract_scalar_r y b)).
  rewrite np_sum_count_within by (by rewrite length_replicate).
  rewrite np_true_divide_nonzero; [done|]. unfold len. lia.
Qed.

(** X7: a single true value is broadcast against any number of predictions,
    without an error: the score is the number of predictions within
    [thresh] of it, divided by [len(y) = 1], not by their number. *)
Theorem outlier_score_single_truth model X (a : float64) (p : ndarray1)
    (thresh : float64) :
  predict model X = Ok p →
  outlier_score rnd model X [a] (Some thresh) =
  Ok (Fin (rnd (inject_Z (Z.of_nat (count_within rnd (replicate (length p) a) p thresh)) /
                inject_Z 1))).
Proof.
  intros Hp.
  rewrite (outlier_score_after_subtract _ _ _ _ _ _ Hp (np_subtract_scalar_l a p)).
  by rewrite np_sum_count_within by (by rewrite length_replicate).
Qed.

(** ** NaN and infinite values *)

Lemma filter_length_disjoint {A} (P Q : A → bool) (l : list A) :
  (∀ x, P x = true → Q x = false) →
  (length (List.filter P l) + length (List.filter Q l) ≤ length l)%nat.
Proof.
  intros HPQ. induction l as [|x l IH]; [done|]. cbn.
  destruct (P x) eqn:HP; [rewrite (HPQ x HP)|destruct (Q x)]; cbn; lia.
Qed.

Lemma filter_length_complement {A} (P Q : A → bool) (l : list A) :
  (∀ x, Q x = negb (P x)) →
  (length (List.filter P l) + length (List.filter Q l) = length l)%nat.
Proof.
  intros HPQ. induction l as [|x l IH]; [done|]. cbn.
  rewrite (HPQ x). destruct (P x); cbn; lia.
Qed.

Lemma f_le_abs_sub_nan_l (b t : float64) : f_le (f_abs (f_sub rnd NaN b)) t = false.
Proof. by destruct b. Qed.

Lemma f_le_abs_sub_nan_r (a t : float64) : f_le (f_abs (f_sub rnd a NaN)) t = false.
Proof. by destruct a. Qed.

(** X8: a sample whose true value or prediction is NaN is never counted,
    whatever the threshold: with [k] such samples among [n], the score is
    [c / n] for some [c <= n - k]. *)
Theorem outlier_score_skips_nan model X (y p : ndarray1) (thresh : option float64) :
  predict model X = Ok p →
  length p = length y →
  (0 < length y)%nat →
  ∃ c : nat,
    outlier_score rnd model X y thresh =
      Ok (Fin (rnd (inject_Z (Z.of_nat c) / inject_Z (Z.of_nat (length y))))) ∧
    (c + length (List.filter
                   (λ i, is_nan (nth i y NaN) || is_nan (nth i p NaN))
                   (seq 0 (length y))) ≤ length y)%nat.
Proof.
  intros Hp Hlen Hpos.
  rewrite (outlier_score_same_length _ _ _ _ _ _ Hp Hlen).
  rewrite np_true_divide_nonzero by (unfold len; lia).
  eexists; split; [done|]. unfold count_within.
  etransitivity; [apply filter_length_disjoint|by rewrite length_seq].
  intros i. unfold within.
  destruct (nth i y NaN) eqn:Hy; cbn [is_nan orb];
    [| | |by rewrite f_le_abs_sub_nan_l];
    (destruct (nth i p NaN) eqn:Hq; cbn [is_nan];
     [| | |by rewrite f_le_abs_sub_nan_r]); done.
Qed.

Lemma f_le_abs_PosInf (a : float64) : f_le (f_abs a) PosInf = negb (is_nan a).
Proof. by destruct a. Qed.

(** X9: with an infinite threshold exactly the samples whose residual
    [y[i] - y_pred[i]] is NaN are left out (a NaN on either side, or two
    equal infinities): the score is [(n - k) / n] for [k] such samples. *)
Theorem outlier_score_inf_thresh model X (y p : ndarray1) :
  predict model X = Ok p →
  length p = length y →
  (0 < length y)%nat →
  ∃ c : nat,
    outlier_score rnd model X y (Some PosInf) =
      Ok (Fin (rnd (inject_Z (Z.of_nat c) / inject_Z (Z.of_nat (length y))))) ∧
    (c + length (List.filter
                   (λ i, is_nan (f_sub rnd (nth i y NaN) (nth i p NaN)))
                   (seq 0 (length y))) = length y)%nat.
Proof.
  intros Hp Hlen Hpos.
  rewrite (outlier_score_same_length _ _ _ _ _ _ Hp Hlen).
  rewrite np_true_divide_nonzero by (unfold len; lia).
  eexists; split; [done|]. cbn [from_option id]. unfold count_within.
  erewrite filter_length_complement; [by rewrite length_seq|].
  intros i. unfold within. rewrite f_le_abs_PosInf. by destruct (is_nan _).
Qed.

(** ** Order and pooling of the samples *)

Lemma np_sum_app (bs1 bs2 : list bool) :
  np_sum (bs1 ++ bs2) = np_sum bs1 + np_sum bs2.
Proof.
  induction bs1 as [|b bs1 IH]; [done|].
  cbn [app]. rewrite !np_sum_cons, IH. lia.
Qed.

Lemma np_sum_Permutation (bs1 bs2 : list bool) :
  bs1 ≡ₚ bs2 → np_sum bs1 = np_sum bs2.
Proof.
  induction 1 as [|b bs1 bs2 _ IH|b1 b2 bs|bs1 bs2 bs3 _ IH1 _ IH2];
    rewrite ?np_sum_cons; [done|by rewrite IH|lia|congruence].
Qed.

(** X10: the score does not depend on the order of the samples: permuting
    the pairs of true value and prediction leaves it unchanged. *)
Theorem outlier_score_permutation model1 model2 X1 X2 (y1 p1 y2 p2 : ndarray1) :
  predict model1 X1 = Ok p1 →
  predict model2 X2 = Ok p2 →
  length p1 = length y1 →
  length p2 = length y2 →
  zip y1 p1 ≡ₚ zip y2 p2 →
  ∀ thresh : option float64,
    outlier_score rnd model1 X1 y1 thresh = outlier_score rnd model2 X2 y2 thresh.
Proof.
  intros Hp1 Hp2 Hl1 Hl2 Hperm thresh.
  assert (Hn : length y1 = length y2).
  { apply Permutation_length in Hperm. rewrite !length_zip in Hperm. lia. }
  rewrite (outlier_score_after_subtract _ _ _ _ _ _ Hp1
             (np_subtract_same_length rnd y1 p1 (eq_sym Hl1))).
  rewrite (outlier_score_after_subtract _ _ _ _ _ _ Hp2
             (np_subtract_same_length rnd y2 p2 (eq_sym Hl2))).
  unfold len. rewrite Hn. do 2 f_equal.
  apply np_sum_Permutation. unfold np_less_equal, np_abs.
  rewrite (zip_with_zip (f_sub rnd) y1 p1), (zip_with_zip (f_sub rnd) y2 p2).
  by rewrite Hperm.
Qed.

Lemma count_within_app (y1 p1 y2 p2 : ndarray1) (t : float64) :
  length p1 = length y1 →
  length p2 = length y2 →
  count_within rnd (y1 ++ y2) (p1 ++ p2) t =
  (count_within rnd y1 p1 t + count_within rnd y2 p2 t)%nat.
Proof.
  intros Hl1 Hl2. apply Nat2Z.inj. rewrite Nat2Z.inj_add.
  rewrite <- !np_sum_count_within by (rewrite ?length_app; lia).
  rewrite zip_with_app by done. unfold np_less_equal, np_abs.
  by rewrite !fmap_app, np_sum_app.
Qed.

(** X11: pooling two batches (two cross-validation folds, say) adds the
    counts and the sizes: the score of the pooled samples is
    [(c1 + c2) / (n1 + n2)]. *)
Theorem outlier_score_pooled model X (y1 p1 y2 p2 : ndarray1) (thresh : float64) :
  predict model X = Ok (p1 ++ p2) →
  length p1 = length y1 →
  length p2 = length y2 →
  (0 < length y1 + length y2)%nat →
  outlier_score rnd model X (y1 ++ y2) (Some thresh) =
  Ok (Fin (rnd (inject_Z (Z.of_nat (count_within rnd y1 p1 thresh +
                                    count_within rnd y2 p2 thresh)) /
                inject_Z (Z.of_nat (length y1 + length y2))))).
Proof.
  intros Hp Hl1 Hl2 Hpos.
  rewrite (outlier_score_same_length _ _ _ _ _ _ Hp)
    by (rewrite !length_app; lia).
  rewrite np_true_divide_nonzero by (unfold len; rewrite length_app; lia).
  cbn [from_option id]. rewrite count_within_app by done.
  unfold len. by rewrite length_app.
Qed.

(** ** Extreme thresholds and perfect predictions *)

Lemma f_abs_le_nonneg (a t : float64) :
  f_le (f_abs a) t = true → f_le (Fin 0) t = true.
Proof.
  destruct a as [x| | |], t as [w| | |]; cbn; try done.
  rewrite !Qle_bool_iff. intros Hx.
  eapply Qle_trans; [apply Qabs_nonneg|exact Hx].
Qed.

Lemma np_sum_none_within (d : ndarray1) (t : float64) :
  f_le (Fin 0) t = false → np_sum (np_less_equal (np_abs d) t) = 0.
Proof.
  intros Ht. unfold np_less_equal, np_abs.
  induction d as [|a d IH]; [done|].
  rewrite !fmap_cons, np_sum_cons, IH.
  destruct (f_le (f_abs a) t) eqn:Ha; [|done].
  apply f_abs_le_nonneg in Ha. congruence.
Qed.

Section FurtherRounding.

Hypothesis rnd_mono : ∀ a b : Q, (a <= b)%Q → (rnd a <= rnd b)%Q.
Hypothesis rnd_0 : (rnd 0 == 0)%Q.
Hypothesis rnd_1 : (rnd 1 == 1)%Q.

(** A monotone rounding maps equal rationals to equal rationals. *)
Lemma rnd_wd (a b : Q) : (a == b)%Q → (rnd a == rnd b)%Q.
Proof.
  intros Hab. apply Qle_antisym; apply rnd_mono; rewrite Hab; apply Qle_refl.
Qed.

(** X12: with a threshold that is not [>= 0] (negative, minus infinity or
    NaN) no sample is within tolerance and the score of a non-empty [y] is
    0, whatever the predictions that broadcast against it. *)
Theorem outlier_score_negative_thresh model X (y p d : ndarray1) (thresh : float64) :
  predict model X = Ok p →
  np_subtract rnd y p = Ok d →
  (0 < length y)%nat →
  f_le (Fin 0) thresh = false →
  ∃ v, outlier_score rnd model X y (Some thresh) = Ok v ∧
       f_eq v (Fin 0) = true.
Proof.
  intros Hp Hd Hpos Ht.
  rewrite (outlier_score_after_subtract _ _ _ _ _ _ Hp Hd).
  cbn [from_option id]. rewrite (np_sum_none_within d thresh Ht).
  rewrite np_true_divide_nonzero by (unfold len; lia).
  eexists; split; [done|]. cbn [f_eq]. apply Qeq_bool_iff.
  rewrite (rnd_wd (inject_Z 0 / inject_Z (len y)) 0)
    by (unfold Qdiv; apply Qmult_0_l).
  exact rnd_0.
Qed.

Lemma np_sum_all_within_self (y : ndarray1) (t : float64) :
  Forall (λ a, is_finite a = true) y →
  f_le (Fin 0) t = true →
  np_sum (np_less_equal (np_abs (zip_with (f_sub rnd) y y)) t) = len y.
Proof.
  intros Hfin Ht. unfold np_less_equal, np_abs, len.
  induction Hfin as [|a y Ha _ IH]; [done|].
  cbn [zip_with length]. rewrite !fmap_cons, np_sum_cons, IH.
  destruct a as [x| | |]; try done. cbn [f_sub f_abs].
  assert (Hx : (Qabs (rnd (x - x)) == 0)%Q).
  { rewrite (rnd_wd (x - x) 0) by apply Qplus_opp_r. by rewrite rnd_0. }
  replace (f_le (Fin (Qabs (rnd (x - x)))) t) with true; [lia|].
  symmetry. destruct t as [w| | |]; cbn in Ht |- *; try done.
  apply Qle_bool_iff. rewrite Hx. by apply Qle_bool_iff.
Qed.

(** X13: predictions equal to finite true values score 1 for every
    threshold [>= 0], the default included. *)
Theorem outlier_score_perfect_predictions model X (y : ndarray1)
    (thresh : option float64) :
  predict model X = Ok y →
  Forall (λ a, is_finite a = true) y →
  (0 < length y)%nat →
  (∀ t, thresh = Some t → f_le (Fin 0) t = true) →
  ∃ v, outlier_score rnd model X y thresh = Ok v ∧ f_eq v (Fin 1) = true.
Proof.
  intros Hp Hfin Hpos Ht.
  rewrite (outlier_score_after_subtract _ _ _ _ _ _ Hp
             (np_subtract_same_length rnd y y eq_refl)).
  rewrite np_sum_all_within_self; [|done|].
  - rewrite np_true_divide_nonzero by (unfold len; lia).
    eexists; split; [done|]. cbn [f_eq]. apply Qeq_bool_iff.
    rewrite (rnd_wd (inject_Z (len y) / inject_Z (len y)) 1); [exact rnd_1|].
    apply Qmult_inv_r.
    change (¬ (inject_Z (len y) == inject_Z 0)%Q). rewrite inject_Z_injective.
    unfold len. lia.
  - destruct thresh as [t|]; [by apply Ht|].
    cbn. apply Qle_bool_iff. rewrite <- rnd_0. by apply rnd_mono.
Qed.

End FurtherRounding.

Section OddRounding.

Hypothesis rnd_mono : ∀ a b : Q, (a <= b)%Q → (rnd a <= rnd b)%Q.
Hypothesis rnd_opp : ∀ a : Q, (rnd (- a) == - rnd a)%Q.

Lemma f_le_abs_sub_sym (a b t : float64) :
  f_le (f_abs (f_sub rnd a b)) t = f_le (f_abs (f_sub rnd b a)) t.
Proof.
  destruct a as [x| | |], b as [w| | |]; try done.
  cbn [f_sub f_abs]. destruct t as [u| | |]; cbn [f_le]; try done.
  apply Qle_bool_wd.
  rewrite (rnd_wd rnd_mono (x - w) (- (w - x))) by (unfold Qminus; ring).
  by rewrite rnd_opp, Qabs_opp.
Qed.

(** X14: the score is symmetric in truth and prediction: scoring the
    predictions [p] against [y] gives what scoring [y] as predictions
    against [p] gives, for vectors of the same length. *)
Theorem outlier_score_symmetric model1 model2 X1 X2 (y p : ndarray1) :
  predict model1 X1 = Ok p →
  predict model2 X2 = Ok y →
  length p = length y →
  ∀ thresh : option float64,
    outlier_score rnd model1 X1 y thresh = outlier_score rnd model2 X2 p thresh.
Proof.
  intros Hp Hy Hlen thresh.
  rewrite (outlier_score_after_subtract _ _ _ _ _ _ Hp
             (np_subtract_same_length rnd y p (eq_sym Hlen))).
  rewrite (outlier_score_after_subtract _ _ _ _ _ _ Hy
             (np_subtract_same_length rnd p y Hlen)).
  unfold len. rewrite Hlen. do 2 f_equal.
  unfold np_less_equal, np_abs. clear Hp Hy. f_equal.
  revert p Hlen. induction y as [|a y IH]; intros [|b p] Hlen; try done.
  cbn [zip_with]. rewrite !fmap_cons, f_le_abs_sub_sym. f_equal.
  apply IH. cbn in Hlen. lia.
Qed.

End OddRounding.

End FurtherProperties.

(** ** The further properties at the sample data *)

Lemma colors_any_width_sample :
  ∃ c,
    colors exact Batch.two_bands = Ok c ∧
    shape c = (nrows Batch.two_bands, (ncols Batch.two_bands - 1)%nat) ∧
    wf_ndarray2 c ∧
    ∀ i j, (i < nrows Batch.two_bands)%nat → (j + 1 < ncols Batch.two_bands)%nat →
      ∃ a b,
        at2 Batch.two_bands i (j + 1) = Some a ∧
        at2 Batch.two_bands i j = Some b ∧
        at2 c i j = Some (f_sub exact a b).
Proof.
  apply (colors_any_width exact Batch.two_bands).
  split; [reflexivity | repeat constructor].
Defined.

Lemma transpose_involutive_sample :
  transpose (transpose Sample.magnitudes) = Sample.magnitudes.
Proof.
  apply (transpose_involutive Sample.magnitudes).
  split; [reflexivity | repeat constructor].
Defined.

Lemma colors_of_catalog_sample :
  ∃ m c,
    mags Sample.data = Ok m ∧ colors exact m = Ok c ∧
    shape c = (length (records Sample.data), 4%nat) ∧
    ∀ i rec, records Sample.data !! i = Some rec →
      ∃ mu mg mr mi mz,
        field Sample.data "modelMag_u" rec = Some mu ∧
        field Sample.data "modelMag_g" rec = Some mg ∧
        field Sample.data "modelMag_r" rec = Some mr ∧
        field Sample.data "modelMag_i" rec = Some mi ∧
        field Sample.data "modelMag_z" rec = Some mz ∧
        cells c !! i =
        Some [f_sub exact mg mu; f_sub exact mr mg;
              f_sub exact mi mr; f_sub exact mz mi].
Proof.
  apply (colors_of_catalog exact Sample.data); repeat constructor.
Defined.

Lemma plot_xy_aligned_sample :
  ∃ x yv,
    plot_xy exact Sample.data = Ok (x, yv) ∧
    length x = (plot_N `min` length (records Sample.data))%nat ∧
    length yv = (plot_N `min` length (records Sample.data))%nat ∧
    ∀ i rec, (i < plot_N)%nat → records Sample.data !! i = Some rec →
      ∃ mg mr rz,
        field Sample.data "modelMag_g" rec = Some mg ∧
        field Sample.data "modelMag_r" rec = Some mr ∧
        field Sample.data "z" rec = Some rz ∧
        x !! i = Some (f_sub exact mr mg) ∧
        yv !! i = Some rz.
Proof.
  apply (plot_xy_aligned exact Sample.data); repeat constructor.
Defined.

Lemma outlier_score_single_prediction_sample :
  outlier_score exact Batch.constant Sample.X Sample.y (Some (Fin (15 # 100))) =
  Ok (Fin (exact
        (inject_Z (Z.of_nat (count_within exact Sample.y
                               (replicate (length Sample.y) (Fin (30 # 100)))
                               (Fin (15 # 100)))) /
         inject_Z (Z.of_nat (length Sample.y))))).
Proof.
  apply (outlier_score_single_prediction exact Batch.constant Sample.X
           Sample.y (Fin (30 # 100)) (Fin (15 # 100)));
    [reflexivity | cbn; lia].
Defined.

Lemma outlier_score_single_truth_sample :
  outlier_score exact Sample.model Sample.X [Fin (30 # 100)] (Some (Fin 1)) =
  Ok (Fin (exact
        (inject_Z (Z.of_nat (count_within exact
                               (replicate (length Sample.y_pred) (Fin (30 # 100)))
                               Sample.y_pred (Fin 1))) /
         inject_Z 1))).
Proof.
  apply (outlier_score_single_truth exact Sample.model Sample.X
           (Fin (30 # 100)) Sample.y_pred (Fin 1)).
  reflexivity.
Defined.

Lemma outlier_score_skips_nan_sample :
  ∃ c : nat,
    outlier_score exact Batch.gaps Sample.X Batch.y_gaps (Some PosInf) =
      Ok (Fin (exact (inject_Z (Z.of_nat c) /
                      inject_Z (Z.of_nat (length Batch.y_gaps))))) ∧
    (c + length (List.filter
                   (λ i, is_nan (nth i Batch.y_gaps NaN) ||
                         is_nan (nth i Batch.y_gaps_pred NaN))
                   (seq 0 (length Batch.y_gaps))) ≤ length Batch.y_gaps)%nat.
Proof.
  apply (outlier_score_skips_nan exact Batch.gaps Sample.X Batch.y_gaps
           Batch.y_gaps_pred (Some PosInf));
    [reflexivity | reflexivity | cbn; lia].
Defined.

Lemma outlier_score_inf_thresh_sample :
  ∃ c : nat,
    outlier_score exact Batch.gaps Sample.X Batch.y_gaps (Some PosInf) =
      Ok (Fin (exact (inject_Z (Z.of_nat c) /
                      inject_Z (Z.of_nat (length Batch.y_gaps))))) ∧
    (c + length (List.filter
                   (λ i, is_nan (f_sub exact (nth i Batch.y_gaps NaN)
                                   (nth i Batch.y_gaps_pred NaN)))
                   (seq 0 (length Batch.y_gaps))) = length Batch.y_gaps)%nat.
Proof.
  apply (outlier_score_inf_thresh exact Batch.gaps Sample.X Batch.y_gaps
           Batch.y_gaps_pred);
    [reflexivity | reflexivity | cbn; lia].
Defined.

Lemma outlier_score_permutation_sample :
  outlier_score exact Sample.model Sample.X Sample.y None =
  outlier_score exact Batch.swapped Sample.X Batch.y_swapped None.
Proof.
  refine (outlier_score_permutation exact Sample.model Batch.swapped
            Sample.X Sample.X Sample.y Sample.y_pred Batch.y_swapped
            [Fin (30 # 100); Fin (10 # 100); Fin 1] _ _ _ _ _ None);
    [reflexivity | reflexivity | reflexivity | reflexivity | apply perm_swap].
Defined.

Lemma outlier_score_pooled_sample :
  outlier_score exact Sample.model Sample.X
    ([Fin (15 # 100)] ++ [Fin (30 # 100); Fin 2]) (Some (Fin (5 # 100))) =
  Ok (Fin (exact
        (inject_Z (Z.of_nat
           (count_within exact [Fin (15 # 100)] [Fin (10 # 100)] (Fin (5 # 100)) +
            count_within exact [Fin (30 # 100); Fin 2] [Fin (30 # 100); Fin 1]
              (Fin (5 # 100)))) /
         inject_Z (Z.of_nat (length [Fin (15 # 100)] +
                             length [Fin (30 # 100); Fin 2]))))).
Proof.
  apply (outlier_score_pooled exact Sample.model Sample.X
           [Fin (15 # 100)] [Fin (10 # 100)]
           [Fin (30 # 100); Fin 2] [Fin (30 # 100); Fin 1] (Fin (5 # 100)));
    [reflexivity | reflexivity | reflexivity | cbn; lia].
Defined.

Lemma outlier_score_negative_thresh_sample :
  ∃ v, outlier_score quarters Sample.model Sample.X Sample.y (Some (Fin (-1))) = Ok v ∧
       f_eq v (Fin 0) = true.
Proof.
  apply (outlier_score_negative_thresh quarters quarters_mono quarters_0
           Sample.model Sample.X Sample.y Sample.y_pred
           (zip_with (f_sub quarters) Sample.y Sample.y_pred) (Fin (-1)));
    [reflexivity | reflexivity | cbn; lia | reflexivity].
Defined.

Lemma outlier_score_perfect_predictions_sample :
  ∃ v, outlier_score quarters Batch.perfect Sample.X Sample.y None = Ok v ∧
       f_eq v (Fin 1) = true.
Proof.
  apply (outlier_score_perfect_predictions quarters quarters_mono quarters_0
           quarters_1 Batch.perfect Sample.X Sample.y None);
    [reflexivity | repeat constructor | cbn; lia | intros t Ht; discriminate Ht].
Defined.

Lemma outlier_score_symmetric_sample :
  outlier_score exact Sample.model Sample.X Sample.y None =
  outlier_score exact Batch.truth Sample.X Sample.y_pred None.
Proof.
  refine (outlier_score_symmetric exact (λ a b H, H) (λ a, Qeq_refl _)
            Sample.model Batch.truth Sample.X Sample.X Sample.y Sample.y_pred
            _ _ _ None);
    reflexivity.
Defined.
